(** * pulpcore.download.context: the object cache and the download context

    A shallow embedding of [platform/pulpcore/download/context.py] and the
    properties of its cache sweep, lookups and attribute protocol.

    Conventions of the embedding.
    - A [datetime] is a number of microseconds on the naive UTC time line
      and a [timedelta] a signed number of microseconds, both in [Z].
    - [Item.now()] reads the wall clock.  Every operation that reads it
      takes the reading as an argument, one argument per call of
      [Item.now()] in the method.
    - [sys.getrefcount] is a reading of the interpreter state.  A sweep
      receives it as a function from objects to counts.
    - A method returns a pair: what the call produced (a value, or the
      exception it raised) and the state of the receiver afterwards.
    - The runs are sequential.  Entering and leaving [with self._lock] on
      the cache's [RLock] changes nothing a sequential run observes, so
      the cache methods do not mention it; the context's mutex is
      modelled, since its use is what the context is about. *)

From stdpp Require Import base numbers option list strings gmap fin_maps.

Local Open Scope Z_scope.

(** ** Exceptions and results *)

Inductive exn : Type :=
| LookupError
| KeyError
| RuntimeError
| AttributeError.

(** [KeyError] is a subclass of [LookupError] in Python's hierarchy. *)
Definition isinstance_LookupError (e : exn) : bool :=
  match e with
  | LookupError | KeyError => true
  | RuntimeError | AttributeError => false
  end.

Inductive result (A : Type) : Type :=
| Return (a : A)
| Raise (e : exn).

Arguments Return {A} a.
Arguments Raise {A} e.

Definition raised {A : Type} (r : result A) : option exn :=
  match r with
  | Return _ => None
  | Raise e => Some e
  end.

(** ** Time *)

Definition datetime : Type := Z.
Definition timedelta : Type := Z.

(** [timedelta(hours=h)] *)
Definition timedelta_hours (h : Z) : timedelta := h * 3600 * 1000000.

(** ** Dictionaries with an iteration order

    The sweep iterates over the inventory, so the inventory is kept as the
    sequence of its entries in iteration order.  Keys are unique
    ([dict_wf]); [dict_set] overwrites in place or appends, [dict_pop]
    removes the entry of a key. *)

Section Dict.
Context {Key V : Type} `{EqDecision Key}.

Fixpoint dict_get (k : Key) (d : list (Key * V)) : option V :=
  match d with
  | [] => None
  | (k', v) :: d' => if decide (k = k') then Some v else dict_get k d'
  end.

Fixpoint dict_set (k : Key) (v : V) (d : list (Key * V)) : list (Key * V) :=
  match d with
  | [] => [(k, v)]
  | (k', v') :: d' =>
      if decide (k = k') then (k, v) :: d' else (k', v') :: dict_set k v d'
  end.

Fixpoint dict_pop (k : Key) (d : list (Key * V)) : option (V * list (Key * V)) :=
  match d with
  | [] => None
  | (k', v) :: d' =>
      if decide (k = k') then Some (v, d')
      else match dict_pop k d' with
           | Some (x, d'') => Some (x, (k', v) :: d'')
           | None => None
           end
  end.

Definition dict_contains (k : Key) (d : list (Key * V)) : bool :=
  match dict_get k d with
  | Some _ => true
  | None => false
  end.

Definition dict_wf (d : list (Key * V)) : Prop := NoDup (d.*1).

End Dict.

(** ** Item and Cache *)

Section CacheModel.
Context {Key Obj : Type} `{EqDecision Key}.

(** [class Item].  [__init__] assigns [last_requested = None] and calls
    [touch()] before it returns, so every constructed item carries a
    timestamp. *)
Record Item : Type := mkItem {
  last_requested : datetime;
  object : Obj
}.

(** [Item.touch], with the reading of [Item.now()]. *)
Definition Item_touch (now : datetime) (self : Item) : Item :=
  {| last_requested := now; object := object self |}.

(** [Item.__init__] *)
Definition Item_init (now : datetime) (object_ : Obj) : Item :=
  Item_touch now {| last_requested := now; object := object_ |}.

(** [Item.ref_count]: [sys.getrefcount(self.object) - 2] *)
Definition ref_count (getrefcount : Obj → Z) (self : Item) : Z :=
  getrefcount (object self) - 2.

(** [Item.busy]: [self.ref_count > 0] *)
Definition busy (getrefcount : Obj → Z) (self : Item) : bool :=
  0 <? ref_count getrefcount self.

(** [class Cache], without its lock. *)
Record Cache : Type := mkCache {
  eviction_threshold : timedelta;
  _inventory : list (Key * Item)
}.

(** The Python values of this module: a payload supplied by a caller, an
    inventory [Item], a cache, the [RLock] a context creates for itself,
    and a method of the context bound to it. *)
Inductive PyVal : Type :=
| VObject (o : Obj)
| VItem (it : Item)
| VCache (c : Cache)
| VRLock
| VBoundMethod (name : string).

(** [Cache.__init__]: [eviction_threshold or timedelta(hours=4)].  [None]
    and the zero duration are both false in Python. *)
Definition Cache_init (threshold : option timedelta) : Cache :=
  {| eviction_threshold :=
       match threshold with
       | Some t => if t =? 0 then timedelta_hours 4 else t
       | None => timedelta_hours 4
       end;
     _inventory := [] |}.

Definition with_inventory (self : Cache) (d : list (Key * Item)) : Cache :=
  {| eviction_threshold := eviction_threshold self; _inventory := d |}.

(** [Cache.put]; the new [Item] is stamped with the reading of the clock. *)
Definition put (now : datetime) (key : Key) (object_ : Obj) (self : Cache) : Cache :=
  with_inventory self (dict_set key (Item_init now object_) (_inventory self)).

(** [Cache.purge]: [return self._inventory.pop(key)].  [dict.pop] without
    a default raises [KeyError]; what it returns is the dictionary's
    value, an [Item]. *)
Definition purge (key : Key) (self : Cache) : result PyVal * Cache :=
  match dict_pop key (_inventory self) with
  | Some (item, d) => (Return (VItem item), with_inventory self d)
  | None => (Raise KeyError, self)
  end.

(** [Cache.__contains__] *)
Definition contains (key : Key) (self : Cache) : bool :=
  dict_contains key (_inventory self).

(** What the body of the sweep's loop decides for one entry. *)
Inductive verdict : Type := IsBusy | IsFresh | IsExpired.

Definition examine (getrefcount : Obj → Z) (now : datetime)
    (threshold : timedelta) (item : Item) : verdict :=
  let duration := now - last_requested item in
  if busy getrefcount item then IsBusy
  else if duration <? threshold then IsFresh
  else IsExpired.

(** An entry the loop body leaves in place. *)
Definition kept (getrefcount : Obj → Z) (now : datetime) (threshold : timedelta)
    (item : Item) : Prop :=
  examine getrefcount now threshold item ≠ IsExpired.

(** The loop of [Cache.evict]:
    [for key, item in self._inventory.items(): ...].

    [items()] is a view of the live dictionary.  Its iterator remembers the
    size the dictionary had when the loop started ([di_used]) and, each
    time the loop asks for the next entry, first compares it with the
    current size; when they differ it raises [RuntimeError] ("dictionary
    changed size during iteration"), also when no entry is left.  The body
    never adds an entry and only ever removes one through [purge], so as
    long as the sizes agree the entries still to come are the ones that
    were to come when the loop started: [pending]. *)
Fixpoint evict_loop (getrefcount : Obj → Z) (now : datetime) (di_used : nat)
    (pending : list (Key * Item)) (self : Cache) (busy_ evicted : list Obj)
  : result (list Obj * list Obj) * Cache :=
  if negb (length (_inventory self) =? di_used)%nat then (Raise RuntimeError, self)
  else
    match pending with
    | [] => (Return (busy_, evicted), self)
    | (key, item) :: rest =>
        match examine getrefcount now (eviction_threshold self) item with
        | IsBusy =>
            evict_loop getrefcount now di_used rest self (busy_ ++ [object item]) evicted
        | IsFresh =>
            evict_loop getrefcount now di_used rest self busy_ evicted
        | IsExpired =>
            match purge key self with
            | (Return _, self') =>
                evict_loop getrefcount now di_used rest self' busy_
                  (evicted ++ [object item])
            | (Raise e, self') => (Raise e, self')
            end
        end
    end.

(** [Cache.evict].  The debug log line after the loop has no effect on the
    cache or on the returned list. *)
Definition evict (getrefcount : Obj → Z) (now : datetime) (self : Cache)
  : result (list Obj) * Cache :=
  match
    evict_loop getrefcount now (length (_inventory self)) (_inventory self) self [] []
  with
  | (Return (_, evicted), self') => (Return evicted, self')
  | (Raise e, self') => (Raise e, self')
  end.

(** [Cache.get].  [t_touch] is the clock reading of [item.touch()],
    [t_evict] the one of the sweep.  [touch] updates the item that sits in
    the inventory. *)
Definition get (getrefcount : Obj → Z) (t_touch t_evict : datetime) (key : Key)
    (self : Cache) : result PyVal * Cache :=
  match dict_get key (_inventory self) with
  | None => (Raise LookupError, self)
  | Some item =>
      let item' := Item_touch t_touch item in
      let self1 := with_inventory self (dict_set key item' (_inventory self)) in
      match evict getrefcount t_evict self1 with
      | (Return _, self2) => (Return (VObject (object item')), self2)
      | (Raise e, self2) => (Raise e, self2)
      end
  end.

End CacheModel.

Arguments Item : clear implicits.
Arguments Cache : clear implicits.
Arguments PyVal : clear implicits.

(** ** Context *)

(** What a run of the context's methods does to the mutex and to the
    instance dictionary, in order. *)
Inductive event : Type :=
| Acquire
| Release
| Store (name : string).

(** The names stored by a trace while the mutex is not held, given the
    number of times it is held when the trace starts. *)
Fixpoint unguarded (level : nat) (tr : list event) : list string :=
  match tr with
  | [] => []
  | Acquire :: tr' => unguarded (S level) tr'
  | Release :: tr' => unguarded (pred level) tr'
  | Store name :: tr' =>
      if (level =? 0)%nat then name :: unguarded level tr' else unguarded level tr'
  end.

Fixpoint level_after (level : nat) (tr : list event) : nat :=
  match tr with
  | [] => level
  | Acquire :: tr' => level_after (S level) tr'
  | Release :: tr' => level_after (pred level) tr'
  | Store _ :: tr' => level_after level tr'
  end.

(** What the body of [class Context] binds a name to. *)
Inductive class_member : Type :=
| PropertyMutex
| Function (name : string).

Definition Context_class (name : string) : option class_member :=
  if decide (name = "_mutex") then Some PropertyMutex
  else if decide (name ∈ ["__init__"; "__setattr__"; "__enter__"; "__exit__"])
       then Some (Function name)
  else None.

Section ContextModel.
Context {Key Obj : Type} `{EqDecision Key}.

(** A member the instance has without the class body binding it: the
    attributes of the built-in base [object] and the ones the class
    statement adds on its own ([__doc__], [__dict__], ...).  [bm_set] is
    [Some e] for a data descriptor, whose setter raises [e] on the values
    of this model (none of them is a class or a dictionary), and [None]
    for any other member. *)
Record base_member : Type := mkBaseMember {
  bm_get : PyVal Key Obj;
  bm_set : option exn
}.

(** The built-in base is not part of the module; the model takes it as a
    parameter. *)
Variable base : string → option base_member.

(** The base binds no data descriptor to the name. *)
Definition no_data_descriptor (name : string) : Prop :=
  ∀ m, base name = Some m → bm_set m = None.

(** An instance of [class Context]: its [__dict__], and how many times the
    [RLock] that [__init__] created is held. *)
Record Context : Type := mkContext {
  __dict__ : gmap string (PyVal Key Obj);
  mutex_level : nat
}.

Definition with_dict (self : Context) (d : gmap string (PyVal Key Obj)) : Context :=
  {| __dict__ := d; mutex_level := mutex_level self |}.

Definition with_level (self : Context) (n : nat) : Context :=
  {| __dict__ := __dict__ self; mutex_level := n |}.

(** [dict.update] with the keyword arguments, in the order given. *)
Definition dict_update (d : gmap string (PyVal Key Obj))
    (properties : list (string * PyVal Key Obj)) : gmap string (PyVal Key Obj) :=
  foldl (λ m kv, <[kv.1 := kv.2]> m) d properties.

(** [Context.__init__]: three writes into [self.__dict__]. *)
Definition Context_init (properties : list (string * PyVal Key Obj))
  : Context * list event :=
  let d1 := dict_update ∅ properties in
  let d2 := <["MUTEX" := VRLock]> d1 in
  let d3 := <["cache" := VCache (Cache_init None)]> d2 in
  ({| __dict__ := d3; mutex_level := 0 |},
   (Store <$> properties.*1) ++ [Store "MUTEX"; Store "cache"]).

(** [Context._mutex]: [self.__dict__['MUTEX']] *)
Definition _mutex (self : Context) : result (PyVal Key Obj) :=
  match __dict__ self !! "MUTEX" with
  | Some v => Return v
  | None => Raise KeyError
  end.

(** [object.__setattr__], which [Context.__setattr__] calls through
    [super]: a data descriptor found on the type takes the assignment (the
    property [_mutex] has no setter and raises [AttributeError]), any
    other name is stored in the instance dictionary. *)
Definition object_setattr (self : Context) (key : string) (value : PyVal Key Obj)
  : result Context :=
  match Context_class key with
  | Some PropertyMutex => Raise AttributeError
  | Some (Function _) => Return (with_dict self (<[key := value]> (__dict__ self)))
  | None =>
      match base key with
      | Some {| bm_set := Some e |} => Raise e
      | _ => Return (with_dict self (<[key := value]> (__dict__ self)))
      end
  end.

(** [Context.__setattr__]: [with self._mutex: super().__setattr__(key, value)].
    The [with] statement releases the lock it entered with, also when the
    body raises.  A value under [MUTEX] that is not the lock does not
    implement the context-manager protocol, and [with] raises
    [AttributeError] before the body runs. *)
Definition setattr (self : Context) (key : string) (value : PyVal Key Obj)
  : result unit * Context * list event :=
  match _mutex self with
  | Raise e => (Raise e, self, [])
  | Return VRLock =>
      let self1 := with_level self (S (mutex_level self)) in
      match object_setattr self1 key value with
      | Return self2 =>
          (Return (), with_level self2 (pred (mutex_level self2)),
           [Acquire; Store key; Release])
      | Raise e =>
          (Raise e, with_level self1 (pred (mutex_level self1)), [Acquire; Release])
      end
  | Return _ => (Raise AttributeError, self, [])
  end.

(** Reading an attribute, [object.__getattribute__]: a data descriptor of
    the type first, then the instance dictionary, then any other member
    of the type; [AttributeError] when all three miss.  The class defines
    no [__getattr__]. *)
Definition getattr (self : Context) (name : string) : result (PyVal Key Obj) :=
  match Context_class name with
  | Some PropertyMutex => _mutex self
  | Some (Function f) =>
      match __dict__ self !! name with
      | Some v => Return v
      | None => Return (VBoundMethod f)
      end
  | None =>
      match base name, __dict__ self !! name with
      | Some {| bm_get := v; bm_set := Some _ |}, _ => Return v
      | _, Some v => Return v
      | Some {| bm_get := v; bm_set := None |}, None => Return v
      | None, None => Raise AttributeError
      end
  end.

(** [Context.__enter__]: [self._mutex.acquire(); return self] *)
Definition enter (self : Context) : result unit * Context * list event :=
  match _mutex self with
  | Raise e => (Raise e, self, [])
  | Return VRLock => (Return (), with_level self (S (mutex_level self)), [Acquire])
  | Return _ => (Raise AttributeError, self, [])
  end.

(** [Context.__exit__]: [self._mutex.release()]; an [RLock] that is not
    held raises [RuntimeError]. *)
Definition exit (self : Context) : result unit * Context * list event :=
  match _mutex self with
  | Raise e => (Raise e, self, [])
  | Return VRLock =>
      match mutex_level self with
      | O => (Raise RuntimeError, self, [])
      | S n => (Return (), with_level self n, [Release])
      end
  | Return _ => (Raise AttributeError, self, [])
  end.

(** What a holder of the context does with it after construction. *)
Inductive operation : Type :=
| OpEnter
| OpExit
| OpSet (key : string) (value : PyVal Key Obj).

Definition perform (self : Context) (op : operation)
  : result unit * Context * list event :=
  match op with
  | OpEnter => enter self
  | OpExit => exit self
  | OpSet key value => setattr self key value
  end.

(** A sequence of operations; one that raises leaves the context as the
    failed call left it, and the holder carries on. *)
Fixpoint perform_all (self : Context) (ops : list operation) : Context * list event :=
  match ops with
  | [] => (self, [])
  | op :: rest =>
      let '(_, self', tr) := perform self op in
      let '(self'', tr') := perform_all self' rest in
      (self'', tr ++ tr')
  end.

(** The life of a context: construction, then operations. *)
Definition Context_life (properties : list (string * PyVal Key Obj))
    (ops : list operation) : Context * list event :=
  let '(self, tr) := Context_init properties in
  let '(self', tr') := perform_all self ops in
  (self', tr ++ tr').

(** The names assigned by a sequence of operations. *)
Fixpoint assigned (ops : list operation) : list string :=
  match ops with
  | [] => []
  | OpSet key _ :: rest => key :: assigned rest
  | _ :: rest => assigned rest
  end.

End ContextModel.

Arguments Context : clear implicits.
Arguments base_member : clear implicits.
Arguments operation : clear implicits.

(** ** Sequences of calls on a cache

    What a user of a cache can do to it, with the readings of the clock
    and of the reference counts each call sees. *)

Section CacheCalls.
Context {Key Obj : Type} `{EqDecision Key}.

Inductive cache_call : Type :=
| CallPut (now : datetime) (key : Key) (object_ : Obj)
| CallPurge (key : Key)
| CallEvict (getrefcount : Obj → Z) (now : datetime)
| CallGet (getrefcount : Obj → Z) (t_touch t_evict : datetime) (key : Key).

(** The cache after one call, whether the call returned or raised. *)
Definition after_call (self : Cache Key Obj) (c : cache_call) : Cache Key Obj :=
  match c with
  | CallPut now key object_ => put now key object_ self
  | CallPurge key => (purge key self).2
  | CallEvict getrefcount now => (evict getrefcount now self).2
  | CallGet getrefcount t_touch t_evict key =>
      (get getrefcount t_touch t_evict key self).2
  end.

Definition after_calls (self : Cache Key Obj) (cs : list cache_call) : Cache Key Obj :=
  foldl after_call self cs.

End CacheCalls.

Arguments cache_call : clear implicits.

(** ** Sample data

    Keys and payloads are integers.  [unreferenced] is the reading of
    [sys.getrefcount] for objects nobody holds outside the cache (the
    cache's reference and the call's own argument), [referenced] the
    reading for objects with one outside holder. *)

Definition unreferenced : Z → Z := λ _, 2.
Definition referenced : Z → Z := λ _, 3.

Definition sample_cache (threshold : timedelta) (entries : list (Z * Item Z))
  : Cache Z Z :=
  {| eviction_threshold := threshold; _inventory := entries |}.

(** One entry, last requested at time 0, under a threshold of 100. *)
Definition one_entry : Cache Z Z := sample_cache 100 [(1, mkItem 0 10)].

(** An entry last requested at time 0 next to one requested at time 90. *)
Definition two_entries : Cache Z Z :=
  sample_cache 100 [(1, mkItem 0 10); (2, mkItem 90 20)].

(** A cache with the default threshold holding one entry stamped at 0. *)
Definition default_one_entry : Cache Z Z :=
  with_inventory (Cache_init None) [(1, mkItem 0 10)].

(** The reading of [sys.getrefcount] while a caller holds object 20 and
    nobody holds any other object. *)
Definition caller_holds_20 : Z → Z := λ o, if o =? 20 then 3 else 2.

(** A runtime whose base class contributes no attribute. *)
Definition no_base : string → option (base_member Z Z) := λ _, None.

(** A context built with no initial properties. *)
Definition fresh_context : Context Z Z := (Context_init []).1.

(** * Properties *)

(** ** Dictionaries *)

Section DictFacts.
Context {Key V : Type} `{EqDecision Key}.
Implicit Types (k : Key) (v : V) (d : list (Key * V)).

Lemma dict_get_elem_of k v d : dict_get k d = Some v → (k, v) ∈ d.
Proof.
  induction d as [|[k' v'] d IH]; simpl; [done|].
  destruct (decide (k = k')) as [->|]; intros Hg.
  - injection Hg as ->. apply list_elem_of_here.
  - apply list_elem_of_further. auto.
Qed.

Lemma dict_get_None_keys k d : dict_get k d = None → k ∉ d.*1.
Proof.
  induction d as [|[k' v'] d IH]; simpl; [intros _; apply not_elem_of_nil|].
  destruct (decide (k = k')); [done|]. intros Hg.
  apply not_elem_of_cons. auto.
Qed.

Lemma dict_get_unique k v d : dict_wf d → (k, v) ∈ d → dict_get k d = Some v.
Proof.
  unfold dict_wf. induction d as [|[k' v'] d IH]; simpl.
  - intros _ Hin. by apply elem_of_nil in Hin.
  - intros Hnd Hin. apply NoDup_cons in Hnd as [Hk Hnd].
    apply elem_of_cons in Hin as [Heq|Hin].
    + injection Heq as -> ->. by rewrite decide_True.
    + destruct (decide (k = k')) as [->|]; [|by auto].
      exfalso. apply Hk. apply list_elem_of_fmap. by exists (k', v).
Qed.

Lemma dict_pop_get k v d d' : dict_pop k d = Some (v, d') → dict_get k d = Some v.
Proof.
  revert d'. induction d as [|[k' v'] d IH]; simpl; intros d'; [done|].
  destruct (decide (k = k')); [congruence|].
  destruct (dict_pop k d) as [[x d'']|]; [|done].
  intros Hp. injection Hp as -> _. by eapply IH.
Qed.

Lemma dict_get_pop k v d : dict_get k d = Some v → ∃ d', dict_pop k d = Some (v, d').
Proof.
  induction d as [|[k' v'] d IH]; simpl; [done|].
  destruct (decide (k = k')).
  - intros Hg. injection Hg as ->. eauto.
  - intros Hg. destruct (IH Hg) as [d' ->]. eauto.
Qed.

Lemma dict_pop_None k d : dict_get k d = None → dict_pop k d = None.
Proof.
  induction d as [|[k' v'] d IH]; simpl; [done|].
  destruct (decide (k = k')); [done|]. intros Hg. by rewrite IH.
Qed.

Lemma dict_pop_other k k' v d d' :
  dict_pop k d = Some (v, d') → k' ≠ k → dict_get k' d' = dict_get k' d.
Proof.
  revert d'. induction d as [|[k0 v0] d IH]; simpl; intros d'; [done|].
  destruct (decide (k = k0)) as [->|Hne].
  - intros Hp Hk. injection Hp as _ <-. by rewrite decide_False.
  - destruct (dict_pop k d) as [[x d'']|] eqn:Hpop; [|done].
    intros Hp Hk. injection Hp as -> <-. simpl.
    destruct (decide (k' = k0)); [done|]. by eapply IH.
Qed.

Lemma dict_pop_keys k v d d' :
  dict_pop k d = Some (v, d') → ∀ k', k' ∈ d'.*1 → k' ∈ d.*1.
Proof.
  revert d'. induction d as [|[k0 v0] d IH]; simpl; intros d'; [done|].
  destruct (decide (k = k0)) as [->|Hne].
  - intros Hp k' Hin. injection Hp as _ <-. by apply list_elem_of_further.
  - destruct (dict_pop k d) as [[x d'']|] eqn:Hpop; [|done].
    intros Hp k' Hin. injection Hp as -> <-. simpl in Hin.
    apply elem_of_cons in Hin as [->|Hin]; [apply list_elem_of_here|].
    apply list_elem_of_further. by eapply IH.
Qed.

Lemma dict_pop_gone k v d d' :
  dict_wf d → dict_pop k d = Some (v, d') → dict_get k d' = None.
Proof.
  unfold dict_wf. revert d'. induction d as [|[k0 v0] d IH]; simpl; intros d'; [done|].
  intros Hnd. apply NoDup_cons in Hnd as [Hk Hnd].
  destruct (decide (k = k0)) as [->|Hne].
  - intros Hp. injection Hp as _ <-.
    destruct (dict_get k0 d) as [x|] eqn:Hg; [|done].
    exfalso. apply Hk. apply list_elem_of_fmap. exists (k0, x).
    split; [done|]. by apply dict_get_elem_of.
  - destruct (dict_pop k d) as [[x d'']|] eqn:Hpop; [|done].
    intros Hp. injection Hp as -> <-. simpl. rewrite decide_False by done. by eapply IH.
Qed.

Lemma dict_pop_wf k v d d' : dict_wf d → dict_pop k d = Some (v, d') → dict_wf d'.
Proof.
  unfold dict_wf. revert d'. induction d as [|[k0 v0] d IH]; simpl; intros d'; [done|].
  intros Hnd. apply NoDup_cons in Hnd as [Hk Hnd].
  destruct (decide (k = k0)) as [->|Hne].
  - intros Hp. by injection Hp as _ <-.
  - destruct (dict_pop k d) as [[x d'']|] eqn:Hpop; [|done].
    intros Hp. injection Hp as -> <-. simpl. apply NoDup_cons. split; [|by eapply IH].
    intros Hin. apply Hk. by eapply dict_pop_keys.
Qed.

Lemma dict_pop_length k v d d' :
  dict_pop k d = Some (v, d') → length d = S (length d').
Proof.
  revert d'. induction d as [|[k0 v0] d IH]; simpl; intros d'; [done|].
  destruct (decide (k = k0)).
  - intros Hp. by injection Hp as _ <-.
  - destruct (dict_pop k d) as [[x d'']|] eqn:Hpop; [|done].
    intros Hp. injection Hp as -> <-. simpl. f_equal. by eapply IH.
Qed.

Lemma dict_get_set k v d : dict_get k (dict_set k v d) = Some v.
Proof.
  induction d as [|[k0 v0] d IH]; simpl.
  - by rewrite decide_True.
  - destruct (decide (k = k0)); simpl.
    + by rewrite decide_True.
    + by rewrite decide_False.
Qed.

Lemma dict_get_set_other k k' v d : k' ≠ k → dict_get k' (dict_set k v d) = dict_get k' d.
Proof.
  intros Hne. induction d as [|[k0 v0] d IH]; simpl.
  - by rewrite decide_False.
  - destruct (decide (k = k0)) as [->|]; simpl.
    + by rewrite !decide_False.
    + destruct (decide (k' = k0)); [done|]. apply IH.
Qed.

Lemma dict_set_keys k v d : ∀ k', k' ∈ (dict_set k v d).*1 → k' = k ∨ k' ∈ d.*1.
Proof.
  induction d as [|[k0 v0] d IH]; simpl; intros k' Hin.
  - apply elem_of_cons in Hin as [->|Hin]; [by left|by right].
  - destruct (decide (k = k0)) as [->|]; simpl in Hin.
    + right. apply elem_of_cons in Hin as [->|Hin];
        [apply list_elem_of_here|by apply list_elem_of_further].
    + apply elem_of_cons in Hin as [->|Hin]; [right; apply list_elem_of_here|].
      destruct (IH _ Hin) as [->|?]; [by left|right; by apply list_elem_of_further].
Qed.

Lemma dict_set_wf k v d : dict_wf d → dict_wf (dict_set k v d).
Proof.
  unfold dict_wf. induction d as [|[k0 v0] d IH]; simpl; intros Hnd.
  - apply NoDup_singleton.
  - apply NoDup_cons in Hnd as [Hk Hnd].
    destruct (decide (k = k0)) as [->|Hne]; simpl.
    + by apply NoDup_cons.
    + apply NoDup_cons. split; [|by apply IH].
      intros Hin. destruct (dict_set_keys _ _ _ _ Hin) as [->|?]; done.
Qed.

End DictFacts.

(** ** The sweep *)

Section SweepFacts.
Context {Key Obj : Type} `{EqDecision Key}.
Implicit Types (self : Cache Key Obj) (item : Item Obj) (key : Key).
Implicit Types (pending : list (Key * Item Obj)) (getrefcount : Obj → Z).

Lemma examine_busy getrefcount now threshold item :
  busy getrefcount item = true → examine getrefcount now threshold item = IsBusy.
Proof. unfold examine. by intros ->. Qed.

Lemma examine_fresh getrefcount now threshold item :
  now - last_requested item < threshold → kept getrefcount now threshold item.
Proof.
  unfold kept, examine. intros Hlt.
  destruct (busy getrefcount item); [done|].
  apply Z.ltb_lt in Hlt. by rewrite Hlt.
Qed.

Lemma examine_expired getrefcount now threshold item :
  busy getrefcount item = false → threshold ≤ now - last_requested item →
  examine getrefcount now threshold item = IsExpired.
Proof.
  unfold examine. intros -> Hle.
  apply Z.ltb_ge in Hle. by rewrite Hle.
Qed.

Lemma examine_expired_inv getrefcount now threshold item :
  examine getrefcount now threshold item = IsExpired →
  busy getrefcount item = false ∧ threshold ≤ now - last_requested item.
Proof.
  unfold examine. destruct (busy getrefcount item); [done|].
  destruct (now - last_requested item <? threshold) eqn:Hlt; [done|].
  apply Z.ltb_ge in Hlt. done.
Qed.

Lemma purge_threshold key self r self' :
  purge key self = (r, self') → eviction_threshold self' = eviction_threshold self.
Proof.
  unfold purge. destruct (dict_pop key (_inventory self)) as [[it d]|];
    intros Hp; by injection Hp as _ <-.
Qed.

Lemma purge_other key key' self r self' :
  purge key self = (r, self') → key' ≠ key →
  dict_get key' (_inventory self') = dict_get key' (_inventory self).
Proof.
  unfold purge. destruct (dict_pop key (_inventory self)) as [[it d]|] eqn:Hpop;
    intros Hp Hne; injection Hp as _ <-; [|done].
  simpl. by eapply dict_pop_other.
Qed.

(** The loop never touches a key whose pending entries it all keeps. *)
Lemma evict_loop_keeps getrefcount now di_used key pending :
  ∀ self busy_ evicted,
    (∀ item, (key, item) ∈ pending →
             kept getrefcount now (eviction_threshold self) item) →
    dict_get key
      (_inventory (evict_loop getrefcount now di_used pending self busy_ evicted).2)
    = dict_get key (_inventory self).
Proof.
  induction pending as [|[k it] rest IH]; intros self busy_ evicted Hkept; simpl.
  - by destruct (negb _).
  - destruct (negb _); [done|].
    assert (Hrest : ∀ item, (key, item) ∈ rest →
                            kept getrefcount now (eviction_threshold self) item).
    { intros item Hin. apply Hkept. by apply list_elem_of_further. }
    destruct (examine getrefcount now (eviction_threshold self) it) eqn:Hex.
    + by apply IH.
    + by apply IH.
    + assert (Hne : key ≠ k).
      { intros ->. by apply (Hkept it); [apply list_elem_of_here|]. }
      destruct (purge k self) as [[v|e] self'] eqn:Hp.
      * rewrite IH.
        -- by eapply purge_other.
        -- by rewrite (purge_threshold _ _ _ _ Hp).
      * simpl. by eapply purge_other.
Qed.

(** Whatever the loop adds to [evicted] is the object of an entry that is
    not busy. *)
Lemma evict_loop_evicted getrefcount now di_used pending :
  ∀ self busy_ evicted busy' evicted' self',
    evict_loop getrefcount now di_used pending self busy_ evicted
    = (Return (busy', evicted'), self') →
    ∀ o, o ∈ evicted' → o ∈ evicted ∨ (0 <? getrefcount o - 2) = false.
Proof.
  induction pending as [|[k it] rest IH];
    intros self busy_ evicted busy' evicted' self'; simpl.
  - destruct (negb _); [done|]. intros Heq o Hin.
    injection Heq as _ <- _. by left.
  - destruct (negb _); [done|].
    destruct (examine getrefcount now (eviction_threshold self) it) eqn:Hex.
    + apply IH.
    + apply IH.
    + destruct (purge k self) as [[v|e] self1]; [|done].
      intros Heq o Hin. destruct (IH _ _ _ _ _ _ Heq o Hin) as [Hin'|?]; [|by right].
      apply elem_of_app in Hin' as [?|Hin']; [by left|].
      apply list_elem_of_singleton in Hin' as ->. right.
      by apply examine_expired_inv in Hex as [Hb _].
Qed.

(** No pending entry is expired: the loop ends normally and changes
    nothing. *)
Lemma evict_loop_all_kept getrefcount now pending :
  ∀ self busy_ evicted,
    Forall (λ kv, kept getrefcount now (eviction_threshold self) kv.2) pending →
    ∃ busy',
      evict_loop getrefcount now (length (_inventory self)) pending self busy_ evicted
      = (Return (busy', evicted), self).
Proof.
  induction pending as [|[k it] rest IH]; intros self busy_ evicted Hall; simpl;
    rewrite Nat.eqb_refl; simpl.
  - eauto.
  - apply Forall_cons in Hall as [Hit Hall]. simpl in Hit. unfold kept in Hit.
    destruct (examine getrefcount now (eviction_threshold self) it); [| |done].
    + apply IH, Hall.
    + apply IH, Hall.
Qed.

(** The first expired entry is purged, and asking the view for the entry
    after it raises. *)
Lemma evict_loop_first_expired getrefcount now pre key item post :
  ∀ self busy_ evicted item0 d',
    Forall (λ kv, kept getrefcount now (eviction_threshold self) kv.2) pre →
    examine getrefcount now (eviction_threshold self) item = IsExpired →
    dict_pop key (_inventory self) = Some (item0, d') →
    evict_loop getrefcount now (length (_inventory self))
      (pre ++ (key, item) :: post) self busy_ evicted
    = (Raise RuntimeError, with_inventory self d').
Proof.
  induction pre as [|[k it] pre IH]; intros self busy_ evicted item0 d' Hall Hex Hpop;
    simpl; rewrite Nat.eqb_refl; simpl.
  - rewrite Hex. unfold purge. rewrite Hpop.
    apply dict_pop_length in Hpop.
    destruct post as [|[k1 it1] post]; simpl;
      rewrite Hpop; by rewrite (proj2 (Nat.eqb_neq _ _)) by lia.
  - apply Forall_cons in Hall as [Hit Hall]. simpl in Hit. unfold kept in Hit.
    destruct (examine getrefcount now (eviction_threshold self) it); [| |done].
    + by eapply IH.
    + by eapply IH.
Qed.

Lemma evict_keeps getrefcount now key item self :
  dict_wf (_inventory self) →
  dict_get key (_inventory self) = Some item →
  kept getrefcount now (eviction_threshold self) item →
  dict_get key (_inventory (evict getrefcount now self).2) = Some item.
Proof.
  intros Hwf Hget Hkept. unfold evict.
  pose proof (evict_loop_keeps getrefcount now (length (_inventory self)) key
                (_inventory self) self [] []) as Hk.
  destruct (evict_loop _ _ _ _ _ _ _) as [[[b e]|x] self'] eqn:Hloop; simpl in *;
    (rewrite Hk; [done|]); intros item' Hin;
    by rewrite (dict_get_unique _ _ _ Hwf Hin) in Hget; injection Hget as ->.
Qed.

Lemma evict_all_kept getrefcount now self :
  Forall (λ kv, kept getrefcount now (eviction_threshold self) kv.2) (_inventory self) →
  evict getrefcount now self = (Return [], self).
Proof.
  intros Hall. unfold evict.
  by destruct (evict_loop_all_kept getrefcount now _ self [] [] Hall) as [b ->].
Qed.

Lemma evict_first_expired getrefcount now self pre key item post :
  dict_wf (_inventory self) →
  _inventory self = pre ++ (key, item) :: post →
  Forall (λ kv, kept getrefcount now (eviction_threshold self) kv.2) pre →
  examine getrefcount now (eviction_threshold self) item = IsExpired →
  ∃ d', dict_pop key (_inventory self) = Some (item, d') ∧
        dict_get key d' = None ∧
        evict getrefcount now self = (Raise RuntimeError, with_inventory self d').
Proof.
  intros Hwf Hinv Hall Hex.
  assert (Hget : dict_get key (_inventory self) = Some item).
  { apply dict_get_unique; [done|]. rewrite Hinv.
    apply elem_of_app. right. apply list_elem_of_here. }
  destruct (dict_get_pop _ _ _ Hget) as [d' Hpop].
  exists d'. split; [done|]. split; [by eapply dict_pop_gone|].
  unfold evict. rewrite Hinv at 2.
  by rewrite (evict_loop_first_expired _ _ _ _ _ _ _ [] [] _ _ Hall Hex Hpop).
Qed.

End SweepFacts.

(** ** The cache's contract *)

Section CacheFacts.
Context {Key Obj : Type} `{EqDecision Key}.
Implicit Types (self : Cache Key Obj) (item : Item Obj) (key : Key).
Implicit Types (getrefcount : Obj → Z) (now : datetime).

Lemma contains_false key self :
  contains key self = false ↔ dict_get key (_inventory self) = None.
Proof.
  unfold contains, dict_contains.
  destruct (dict_get key (_inventory self)); split; congruence.
Qed.

Lemma put_get now key (o : Obj) self :
  dict_get key (_inventory (put now key o self)) = Some (Item_init now o).
Proof. unfold put. simpl. apply dict_get_set. Qed.

Lemma put_wf now key (o : Obj) self :
  dict_wf (_inventory self) → dict_wf (_inventory (put now key o self)).
Proof. unfold put. simpl. apply dict_set_wf. Qed.

(** When the sweep inside [get] meets no expired entry, [get] right after
    [put] returns the payload and only stamps the item. *)
Lemma get_after_put_quiet getrefcount now (t_touch t_evict : datetime) key (o : Obj) self :
  let self1 :=
    with_inventory self
      (dict_set key (Item_touch t_touch (Item_init now o))
         (_inventory (put now key o self))) in
  Forall (λ kv, kept getrefcount t_evict (eviction_threshold self) kv.2)
    (_inventory self1) →
  get getrefcount t_touch t_evict key (put now key o self)
  = (Return (VObject o), self1).
Proof.
  intros self1 Hall. unfold get. rewrite put_get.
  change (with_inventory (put now key o self) ?d) with (with_inventory self d).
  fold self1. by rewrite (evict_all_kept getrefcount t_evict self1 Hall).
Qed.

(** C1. An item that is busy when [evict] sweeps the inventory is still
    in the inventory afterwards, unchanged, and its object is not in the
    list [evict] returns; the time since it was last requested plays no
    part. *)
Theorem evict_spares_busy getrefcount now self key item :
  dict_wf (_inventory self) →
  dict_get key (_inventory self) = Some item →
  busy getrefcount item = true →
  dict_get key (_inventory (evict getrefcount now self).2) = Some item ∧
  ∀ evicted, (evict getrefcount now self).1 = Return evicted →
             object item ∉ evicted.
Proof.
  intros Hwf Hget Hbusy. split.
  - apply evict_keeps; [done..|]. unfold kept. by rewrite examine_busy.
  - intros evicted. unfold evict.
    destruct (evict_loop _ _ _ _ _ _ _) as [[[b e]|x] self'] eqn:Hloop; simpl; [|done].
    intros Heq Hin. injection Heq as ->.
    destruct (evict_loop_evicted _ _ _ _ _ _ _ _ _ _ Hloop _ Hin) as [Hnil|Hidle].
    + by apply elem_of_nil in Hnil.
    + unfold busy, ref_count in Hbusy. congruence.
Qed.

(** C7. [get] on a key that is not in the cache raises [LookupError]; it
    returns no value at all. *)
Theorem get_absent_raises getrefcount (t_touch t_evict : datetime) key self :
  contains key self = false →
  (get getrefcount t_touch t_evict key self).1 = Raise LookupError ∧
  ∀ v, (get getrefcount t_touch t_evict key self).1 ≠ Return v.
Proof.
  intros Habs. apply contains_false in Habs.
  unfold get. rewrite Habs. simpl. done.
Qed.

(** C10. A [get] that fails on an absent key leaves the cache exactly as
    it was: no timestamp is touched and no sweep runs. *)
Theorem get_absent_unchanged getrefcount (t_touch t_evict : datetime) key self :
  contains key self = false →
  (get getrefcount t_touch t_evict key self).2 = self.
Proof.
  intros Habs. apply contains_false in Habs.
  unfold get. by rewrite Habs.
Qed.

(** C3, as the code has it.  An item requested less than the threshold ago
    stays in the inventory.  An item that is not busy and was requested
    the threshold ago or earlier (equality included) is removed from the
    inventory by the sweep that reaches it, that is, when every entry
    before it in the iteration is kept. *)
Theorem evict_threshold_rule getrefcount now self pre key item post :
  dict_wf (_inventory self) →
  _inventory self = pre ++ (key, item) :: post →
  (now - last_requested item < eviction_threshold self →
   dict_get key (_inventory (evict getrefcount now self).2) = Some item) ∧
  (busy getrefcount item = false →
   eviction_threshold self ≤ now - last_requested item →
   Forall (λ kv, kept getrefcount now (eviction_threshold self) kv.2) pre →
   contains key (evict getrefcount now self).2 = false).
Proof.
  intros Hwf Hinv. split.
  - intros Hlt. apply evict_keeps; [done| |by apply examine_fresh].
    apply dict_get_unique; [done|]. rewrite Hinv.
    apply elem_of_app. right. apply list_elem_of_here.
  - intros Hidle Hle Hpre.
    destruct (evict_first_expired getrefcount now self pre key item post Hwf Hinv Hpre)
      as (d' & _ & Hgone & ->).
    + by apply examine_expired.
    + simpl. by apply contains_false.
Qed.

(** C5, as the code has it.  [purge] on a key of the cache removes the
    entry, leaves the others, and returns the inventory's [Item] for the
    key; right after [put(key, o)] that item wraps the payload [o].  On a
    key that is not in the cache it raises [KeyError], a [LookupError],
    and changes nothing. *)
Theorem purge_returns_item now key (o : Obj) self :
  dict_wf (_inventory self) →
  (∀ item, dict_get key (_inventory self) = Some item →
     ∃ self', purge key self = (Return (VItem item), self') ∧
              contains key self' = false ∧
              ∀ key', key' ≠ key →
                dict_get key' (_inventory self') = dict_get key' (_inventory self)) ∧
  (∃ item self', purge key (put now key o self) = (Return (VItem item), self') ∧
                 object item = o ∧ contains key self' = false) ∧
  (contains key self = false →
     purge key self = (Raise KeyError, self) ∧ isinstance_LookupError KeyError = true).
Proof.
  intros Hwf.
  assert (Hpresent : ∀ c item, dict_wf (_inventory c) →
            dict_get key (_inventory c) = Some item →
            ∃ c', purge key c = (Return (VItem item), c') ∧
                  contains key c' = false ∧
                  ∀ key', key' ≠ key →
                    dict_get key' (_inventory c') = dict_get key' (_inventory c)).
  { intros c item Hc Hget. destruct (dict_get_pop _ _ _ Hget) as [d' Hpop].
    exists (with_inventory c d'). unfold purge. rewrite Hpop. split; [done|]. split.
    - apply contains_false. simpl. by eapply dict_pop_gone.
    - intros key' Hne. simpl. by eapply dict_pop_other. }
  split; [intros item Hget; by apply (Hpresent self item)|]. split.
  - destruct (Hpresent (put now key o self) (Item_init now o)) as (c' & Hp & Hc & _).
    + by apply put_wf.
    + apply put_get.
    + by exists (Item_init now o), c'.
  - intros Habs. apply contains_false in Habs.
    unfold purge. by rewrite dict_pop_None.
Qed.

End CacheFacts.

(** *** Instances *)

Lemma evict_spares_busy_witness :
  dict_get 1 (_inventory (evict referenced 1000 one_entry).2) = Some (mkItem 0 10) ∧
  ∀ evicted, (evict referenced 1000 one_entry).1 = Return evicted → 10 ∉ evicted.
Proof.
  apply (evict_spares_busy referenced 1000 one_entry 1 (mkItem 0 10)).
  - apply NoDup_singleton.
  - reflexivity.
  - reflexivity.
Defined.

Lemma get_absent_raises_witness :
  (get unreferenced 5 5 7 one_entry).1 = Raise LookupError ∧
  ∀ v, (get unreferenced 5 5 7 one_entry).1 ≠ Return v.
Proof. apply (get_absent_raises unreferenced 5 5 7 one_entry). reflexivity. Defined.

Lemma get_absent_unchanged_witness :
  (get unreferenced 1000 1000 7 one_entry).2 = one_entry.
Proof. apply (get_absent_unchanged unreferenced 1000 1000 7 one_entry). reflexivity. Defined.

Lemma evict_threshold_rule_witness :
  dict_get 2 (_inventory (evict unreferenced 100 two_entries).2) = Some (mkItem 90 20) ∧
  contains 1 (evict unreferenced 100 one_entry).2 = false.
Proof.
  split.
  - apply (evict_threshold_rule unreferenced 100 two_entries [(1, mkItem 0 10)] 2
             (mkItem 90 20) []).
    + apply NoDup_cons. split; [|apply NoDup_singleton].
      vm_compute. intros Hin. inversion Hin as [|? ? ? Hin']. inversion Hin'.
    + reflexivity.
    + vm_compute. reflexivity.
  - apply (evict_threshold_rule unreferenced 100 one_entry [] 1 (mkItem 0 10) []).
    + apply NoDup_singleton.
    + reflexivity.
    + reflexivity.
    + vm_compute. discriminate.
    + apply Forall_nil_2.
Defined.

Lemma purge_returns_item_witness :
  ∃ item self',
    purge 1 (put 5 1 10 (Cache_init (Key:=Z) (Obj:=Z) None)) = (Return (VItem item), self') ∧
    object item = 10 ∧ contains 1 self' = false.
Proof.
  apply (purge_returns_item 5 1 10 (Cache_init (Key:=Z) (Obj:=Z) None)).
  apply NoDup_nil_2.
Defined.

(** *** Where the code departs from the contract *)

(** C3 as worded: an idle item exactly at the threshold would stay.  It
    does not: with a threshold of 100, the item last requested at 0 is
    gone after the sweep at 100. *)
Lemma evict_at_threshold_counterexample :
  busy unreferenced (mkItem 0 10) = false ∧
  100 - last_requested (mkItem 0 10) = eviction_threshold one_entry ∧
  contains 1 one_entry = true ∧
  contains 1 (evict unreferenced 100 one_entry).2 = false.
Proof. repeat split. Qed.

(** C5 as worded: [purge] would return the payload.  It returns the
    [Item] around it. *)
Lemma purge_payload_counterexample :
  (purge 1 (put 5 1 10 (Cache_init (Key:=Z) (Obj:=Z) None))).1
    = Return (VItem (mkItem 5 10)) ∧
  (purge 1 (put 5 1 10 (Cache_init (Key:=Z) (Obj:=Z) None))).1
    ≠ Return (VObject 10).
Proof. split; [reflexivity|discriminate]. Qed.

(** C2.  One entry, not busy, idle for two and a half thresholds: the
    sweep removes it and then raises [RuntimeError] when the loop asks the
    dictionary view for the next entry, so no list of evicted objects is
    returned. *)
Theorem evict_expired_returns_nothing :
  evict unreferenced 250 one_entry = (Raise RuntimeError, sample_cache 100 []).
Proof. reflexivity. Qed.

(** C4.  An expired entry next to a fresh one: the sweep purges the first
    while iterating the live view and fails with [RuntimeError]. *)
Theorem evict_mutates_during_iteration :
  evict unreferenced 150 two_entries
  = (Raise RuntimeError, sample_cache 100 [(2, mkItem 90 20)]).
Proof. reflexivity. Qed.

(** C6.  A stale entry under key 1; [put(2, 20)] followed at once by
    [get(2)], the caller still holding the object: the sweep inside [get]
    purges key 1 and raises, and [get] does not return the payload. *)
Theorem get_after_put_raises :
  get caller_holds_20 20000000000 20000000000 2
    (put 20000000000 2 20 default_one_entry)
  = (Raise RuntimeError,
     with_inventory (Cache_init None) [(2, mkItem 20000000000 20)]).
Proof. reflexivity. Qed.

(** ** The context *)

Section ContextFacts.
Context {Key Obj : Type} `{EqDecision Key}.
Variable base : string → option (base_member Key Obj).
Implicit Types (self : Context Key Obj) (op : operation Key Obj).
Implicit Types (name key : string) (tr : list event) (level : nat).

Lemma unguarded_app level tr1 tr2 :
  unguarded level (tr1 ++ tr2)
  = unguarded level tr1 ++ unguarded (level_after level tr1) tr2.
Proof.
  revert level. induction tr1 as [|[| |name] tr1 IH]; intros level; simpl; [done|..].
  - apply IH.
  - apply IH.
  - destruct (level =? 0)%nat; simpl; by rewrite IH.
Qed.

Lemma level_after_app level tr1 tr2 :
  level_after level (tr1 ++ tr2) = level_after (level_after level tr1) tr2.
Proof.
  revert level. induction tr1 as [|[| |name] tr1 IH]; intros level; simpl; auto.
Qed.

Lemma unguarded_stores (names : list string) tr :
  unguarded 0 ((Store <$> names) ++ tr) = names ++ unguarded 0 tr.
Proof.
  induction names as [|n names IH]; [done|].
  rewrite fmap_cons. cbn [app unguarded Nat.eqb]. by rewrite IH.
Qed.

Lemma level_after_stores level (names : list string) tr :
  level_after level ((Store <$> names) ++ tr) = level_after level tr.
Proof.
  induction names as [|n names IH]; [done|].
  rewrite fmap_cons. cbn [app level_after]. apply IH.
Qed.

(** Every store of [__setattr__] sits between its own acquire and release,
    and [__enter__] and [__exit__] store nothing. *)
Lemma perform_guarded self op level :
  unguarded level (perform base self op).2 = [].
Proof.
  destruct op as [| |key value]; simpl.
  - unfold enter. destruct (_mutex self) as [[]|]; done.
  - unfold exit. destruct (_mutex self) as [[]|]; try done.
    by destruct (mutex_level self).
  - unfold setattr. destruct (_mutex self) as [[]|]; try done.
    by destruct (object_setattr _ _ _ _).
Qed.

(** The trace of an operation moves the level as the operation moves the
    lock. *)
Lemma perform_level self op :
  level_after (mutex_level self) (perform base self op).2
  = mutex_level (perform base self op).1.2.
Proof.
  destruct op as [| |key value]; simpl.
  - unfold enter. destruct (_mutex self) as [[]|]; done.
  - unfold exit. destruct (_mutex self) as [[]|]; try done.
    destruct (mutex_level self) eqn:Hl; simpl; by rewrite ?Hl.
  - unfold setattr. destruct (_mutex self) as [[]|]; try done.
    destruct (object_setattr _ _ _ _) as [self2|e] eqn:Hset; simpl; [|done].
    unfold object_setattr in Hset.
    destruct (Context_class key) as [[]|]; try done.
    + by injection Hset as <-.
    + destruct (base key) as [[v [x|]]|]; try done; by injection Hset as <-.
Qed.

Lemma perform_all_guarded ops : ∀ self level,
  unguarded level (perform_all base self ops).2 = [].
Proof.
  induction ops as [|op ops IH]; intros self level; simpl; [done|].
  pose proof (perform_guarded self op level) as Hop.
  destruct (perform base self op) as [[r self'] tr]. simpl in Hop.
  pose proof (IH self' (level_after level tr)) as Hrest.
  destruct (perform_all base self' ops) as [self'' tr']. simpl in *.
  by rewrite unguarded_app, Hop, Hrest.
Qed.

Lemma perform_all_level ops : ∀ self,
  level_after (mutex_level self) (perform_all base self ops).2
  = mutex_level (perform_all base self ops).1.
Proof.
  induction ops as [|op ops IH]; intros self; simpl; [done|].
  pose proof (perform_level self op) as Hop.
  destruct (perform base self op) as [[r self'] tr]. simpl in Hop.
  pose proof (IH self') as Hrest.
  destruct (perform_all base self' ops) as [self'' tr']. simpl in *.
  by rewrite level_after_app, Hop.
Qed.

(** The trace of a context's life accounts for its lock. *)
Lemma Context_life_level properties ops :
  level_after 0 (Context_life base properties ops).2
  = mutex_level (Context_life base properties ops).1.
Proof.
  unfold Context_life, Context_init.
  pose proof (perform_all_level ops) as Hl.
  match goal with |- context [perform_all base ?c ops] => specialize (Hl c) end.
  destruct (perform_all base _ ops) as [self' tr']. simpl in *.
  by rewrite <- app_assoc, level_after_stores.
Qed.

Lemma dict_update_absent name (properties : list (string * PyVal Key Obj)) :
  ∀ d : gmap string (PyVal Key Obj),
    d !! name = None → name ∉ properties.*1 → dict_update d properties !! name = None.
Proof.
  unfold dict_update.
  induction properties as [|[k v] properties IH]; intros d Hd Hnot; simpl; [done|].
  simpl in Hnot. apply not_elem_of_cons in Hnot as [Hne Hnot].
  apply IH; [|done]. by rewrite lookup_insert_ne.
Qed.

Lemma Context_init_absent name (properties : list (string * PyVal Key Obj)) :
  name ∉ properties.*1 → name ≠ "MUTEX" → name ≠ "cache" →
  __dict__ (Context_init properties).1 !! name = None.
Proof.
  intros Hnot Hm Hc. simpl.
  rewrite !lookup_insert_ne by done.
  by apply dict_update_absent.
Qed.

Lemma perform_absent name self op :
  __dict__ self !! name = None → name ∉ assigned [op] →
  __dict__ (perform base self op).1.2 !! name = None.
Proof.
  intros Hd Hnot. destruct op as [| |key value]; simpl.
  - unfold enter. destruct (_mutex self) as [[]|]; done.
  - unfold exit. destruct (_mutex self) as [[]|]; try done.
    by destruct (mutex_level self).
  - simpl in Hnot. apply not_elem_of_cons in Hnot as [Hne _].
    unfold setattr. destruct (_mutex self) as [[]|]; try done.
    destruct (object_setattr _ _ _ _) as [self2|e] eqn:Hset; simpl; [|done].
    unfold object_setattr in Hset.
    destruct (Context_class key) as [[]|]; try done.
    + injection Hset as <-. simpl. by rewrite lookup_insert_ne.
    + destruct (base key) as [[v [x|]]|]; try done;
        injection Hset as <-; simpl; by rewrite lookup_insert_ne.
Qed.

Lemma perform_all_absent name ops : ∀ self,
  __dict__ self !! name = None → name ∉ assigned ops →
  __dict__ (perform_all base self ops).1 !! name = None.
Proof.
  induction ops as [|op ops IH]; intros self Hd Hnot; simpl; [done|].
  assert (Hop : (name ∉ assigned [op]) ∧ (name ∉ assigned ops)).
  { destruct op; simpl in *; try (split; [apply not_elem_of_nil|done]).
    apply not_elem_of_cons in Hnot as [? ?].
    split; [|done]. apply not_elem_of_cons. split; [done|apply not_elem_of_nil]. }
  destruct Hop as [Hop Hops].
  pose proof (perform_absent name self op Hd Hop) as Hd'.
  destruct (perform base self op) as [[r self'] tr]. simpl in Hd'.
  pose proof (IH self' Hd' Hops) as Hrest.
  by destruct (perform_all base self' ops) as [self'' tr'].
Qed.

(** C8, as the code has it.  Over the whole life of a context, the writes
    made while its mutex is not held are exactly the writes of
    construction: the initial properties, the lock and the cache go
    straight into the instance dictionary, and every later assignment is
    made by [__setattr__] with the mutex held. *)
Theorem only_construction_bypasses_mutex properties ops :
  unguarded 0 (Context_life base properties ops).2
  = properties.*1 ++ ["MUTEX"; "cache"].
Proof.
  unfold Context_life, Context_init.
  pose proof (perform_all_guarded ops) as Hg.
  match goal with |- context [perform_all base ?c ops] => specialize (Hg c) end.
  destruct (perform_all base _ ops) as [self' tr']. simpl in *.
  rewrite <- app_assoc, unguarded_stores. simpl. by rewrite Hg.
Qed.

(** C9, as the code has it.  Reading a name that was set neither at
    construction nor later raises [AttributeError], provided the name is
    not one the class itself or its built-in base binds. *)
Theorem getattr_never_set properties ops name :
  name ∉ properties.*1 →
  name ∉ assigned ops →
  name ≠ "MUTEX" → name ≠ "cache" →
  Context_class name = None →
  base name = None →
  getattr base (Context_life base properties ops).1 name = Raise AttributeError.
Proof.
  intros Hprops Hops Hm Hc Hclass Hbase.
  pose proof (Context_init_absent name properties Hprops Hm Hc) as Hinit.
  unfold Context_life.
  destruct (Context_init properties) as [self tr]. simpl in Hinit.
  pose proof (perform_all_absent name ops self Hinit Hops) as Hd.
  destruct (perform_all base self ops) as [self' tr']. simpl in *.
  unfold getattr. by rewrite Hclass, Hbase, Hd.
Qed.

End ContextFacts.

Lemma getattr_never_set_witness :
  getattr no_base
    (Context_life no_base [("url", VObject 1)] [OpEnter; OpSet "session" (VObject 2)]).1
    "token"
  = Raise AttributeError.
Proof.
  apply (getattr_never_set no_base [("url", VObject 1)]
           [OpEnter; OpSet "session" (VObject 2)] "token").
  - vm_compute. intros Hin. inversion Hin as [|? ? ? Hin']. inversion Hin'.
  - vm_compute. intros Hin. inversion Hin as [|? ? ? Hin']. inversion Hin'.
  - discriminate.
  - discriminate.
  - reflexivity.
  - reflexivity.
Defined.

(** C8 as worded: the writes of construction would hold the mutex.  A
    context built with no properties stores both reserved names with the
    mutex not held. *)
Lemma Context_init_counterexample :
  unguarded 0 (Context_init (Key:=Z) (Obj:=Z) []).2 = ["MUTEX"; "cache"].
Proof. reflexivity. Qed.

(** C9 as worded: every name never set would raise.  [_mutex] is set by
    nobody, and reading it on a fresh context returns the lock. *)
Lemma getattr_mutex_counterexample :
  ("_mutex" ∉ ["MUTEX"; "cache"]) ∧
  __dict__ fresh_context !! "_mutex" = None ∧
  getattr no_base fresh_context "_mutex" = Return VRLock.
Proof.
  split; [|split; reflexivity].
  intros Hin. inversion Hin as [|? ? ? Hin1]; subst.
  inversion Hin1 as [|? ? ? Hin2]; subst. inversion Hin2.
Qed.

(** * Further properties of the cache *)

Section DictMore.
Context {Key V : Type} `{EqDecision Key}.
Implicit Types (k : Key) (v : V) (d : list (Key * V)).

Lemma dict_set_length k v d :
  length (dict_set k v d)
  = if dict_contains k d then length d else S (length d).
Proof.
  unfold dict_contains. induction d as [|[k0 v0] d IH]; simpl; [done|].
  destruct (decide (k = k0)); simpl; [done|].
  rewrite IH. by destruct (dict_get k d).
Qed.

Lemma dict_set_set k v1 v2 d : dict_set k v2 (dict_set k v1 d) = dict_set k v2 d.
Proof.
  induction d as [|[k0 v0] d IH]; simpl.
  - by rewrite decide_True.
  - destruct (decide (k = k0)) as [->|Hne]; simpl.
    + by rewrite decide_True.
    + rewrite decide_False by done. by rewrite IH.
Qed.

Lemma dict_pop_set_absent k v d :
  dict_get k d = None → dict_pop k (dict_set k v d) = Some (v, d).
Proof.
  induction d as [|[k0 v0] d IH]; simpl.
  - intros _. by rewrite decide_True.
  - destruct (decide (k = k0)); [done|]. intros Hg. simpl.
    rewrite decide_False by done. by rewrite IH.
Qed.

End DictMore.

Section SweepMore.
Context {Key Obj : Type} `{EqDecision Key}.
Implicit Types (self : Cache Key Obj) (item : Item Obj) (key : Key).
Implicit Types (pending : list (Key * Item Obj)) (getrefcount : Obj → Z).

Lemma with_inventory_same self : with_inventory self (_inventory self) = self.
Proof. by destruct self. Qed.

(** A sequence of entries is kept as a whole, or has a first expired
    entry. *)
Lemma kept_or_first_expired getrefcount now (threshold : timedelta) pending :
  Forall (λ kv, kept getrefcount now threshold kv.2) pending ∨
  ∃ pre key item post,
    pending = pre ++ (key, item) :: post ∧
    Forall (λ kv, kept getrefcount now threshold kv.2) pre ∧
    examine getrefcount now threshold item = IsExpired.
Proof.
  induction pending as [|[k it] rest IH]; [left; apply Forall_nil_2|].
  destruct (examine getrefcount now threshold it) eqn:Hex.
  - destruct IH as [Hall|(pre & key & item & post & -> & Hpre & Hitem)].
    + left. apply Forall_cons. split; [|done]. unfold kept. simpl. by rewrite Hex.
    + right. exists ((k, it) :: pre), key, item, post. split; [done|]. split; [|done].
      apply Forall_cons. split; [|done]. unfold kept. simpl. by rewrite Hex.
  - destruct IH as [Hall|(pre & key & item & post & -> & Hpre & Hitem)].
    + left. apply Forall_cons. split; [|done]. unfold kept. simpl. by rewrite Hex.
    + right. exists ((k, it) :: pre), key, item, post. split; [done|]. split; [|done].
      apply Forall_cons. split; [|done]. unfold kept. simpl. by rewrite Hex.
  - right. exists [], k, it, rest. split; [done|]. split; [apply Forall_nil_2|done].
Qed.

(** The first expired entry names a key the inventory does not hold: the
    [purge] inside the loop raises. *)
Lemma evict_loop_first_missing getrefcount now pre key item post :
  ∀ self busy_ evicted,
    Forall (λ kv, kept getrefcount now (eviction_threshold self) kv.2) pre →
    examine getrefcount now (eviction_threshold self) item = IsExpired →
    dict_pop key (_inventory self) = None →
    evict_loop getrefcount now (length (_inventory self))
      (pre ++ (key, item) :: post) self busy_ evicted
    = (Raise KeyError, self).
Proof.
  induction pre as [|[k it] pre IH]; intros self busy_ evicted Hall Hex Hpop;
    simpl; rewrite Nat.eqb_refl; simpl.
  - rewrite Hex. unfold purge. by rewrite Hpop.
  - apply Forall_cons in Hall as [Hit Hall]. simpl in Hit. unfold kept in Hit.
    destruct (examine getrefcount now (eviction_threshold self) it); [| |done].
    + by apply IH.
    + by apply IH.
Qed.

(** The three ways the loop can end. *)
Lemma evict_loop_outcome getrefcount now pending self busy_ evicted :
  (Forall (λ kv, kept getrefcount now (eviction_threshold self) kv.2) pending ∧
   ∃ busy',
     evict_loop getrefcount now (length (_inventory self)) pending self busy_ evicted
     = (Return (busy', evicted), self)) ∨
  (∃ pre key item post,
     pending = pre ++ (key, item) :: post ∧
     Forall (λ kv, kept getrefcount now (eviction_threshold self) kv.2) pre ∧
     examine getrefcount now (eviction_threshold self) item = IsExpired ∧
     ((∃ item0 d', dict_pop key (_inventory self) = Some (item0, d') ∧
         evict_loop getrefcount now (length (_inventory self)) pending self busy_ evicted
         = (Raise RuntimeError, with_inventory self d')) ∨
      (dict_pop key (_inventory self) = None ∧
         evict_loop getrefcount now (length (_inventory self)) pending self busy_ evicted
         = (Raise KeyError, self)))).
Proof.
  destruct (kept_or_first_expired getrefcount now (eviction_threshold self) pending)
    as [Hall|(pre & key & item & post & -> & Hpre & Hex)].
  - left. split; [done|]. by apply evict_loop_all_kept.
  - right. exists pre, key, item, post. split; [done|]. split; [done|]. split; [done|].
    destruct (dict_pop key (_inventory self)) as [[item0 d']|] eqn:Hpop.
    + left. exists item0, d'. split; [done|]. by eapply evict_loop_first_expired.
    + right. split; [done|]. by apply evict_loop_first_missing.
Qed.

(** The ways [evict] can end. *)
Lemma evict_outcome getrefcount now self :
  (Forall (λ kv, kept getrefcount now (eviction_threshold self) kv.2) (_inventory self) ∧
   evict getrefcount now self = (Return [], self)) ∨
  (∃ pre key item post,
     _inventory self = pre ++ (key, item) :: post ∧
     Forall (λ kv, kept getrefcount now (eviction_threshold self) kv.2) pre ∧
     examine getrefcount now (eviction_threshold self) item = IsExpired ∧
     ((∃ item0 d', dict_pop key (_inventory self) = Some (item0, d') ∧
         evict getrefcount now self = (Raise RuntimeError, with_inventory self d')) ∨
      (dict_pop key (_inventory self) = None ∧
         evict getrefcount now self = (Raise KeyError, self)))).
Proof.
  unfold evict.
  destruct (evict_loop_outcome getrefcount now (_inventory self) self [] [])
    as [[Hall [b ->]]|(pre & key & item & post & Hinv & Hpre & Hex & Hend)].
  - by left.
  - right. exists pre, key, item, post. split; [done|]. split; [done|]. split; [done|].
    destruct Hend as [(item0 & d' & Hpop & ->)|[Hpop ->]].
    + left. by exists item0, d'.
    + by right.
Qed.

(** With one entry per key, the key of a pending entry is in the
    inventory, and [purge] finds the entry itself. *)
Lemma evict_outcome_wf getrefcount now self :
  dict_wf (_inventory self) →
  (Forall (λ kv, kept getrefcount now (eviction_threshold self) kv.2) (_inventory self) ∧
   evict getrefcount now self = (Return [], self)) ∨
  (∃ pre key item post d',
     _inventory self = pre ++ (key, item) :: post ∧
     Forall (λ kv, kept getrefcount now (eviction_threshold self) kv.2) pre ∧
     examine getrefcount now (eviction_threshold self) item = IsExpired ∧
     dict_pop key (_inventory self) = Some (item, d') ∧
     evict getrefcount now self = (Raise RuntimeError, with_inventory self d')).
Proof.
  intros Hwf.
  destruct (kept_or_first_expired getrefcount now (eviction_threshold self)
              (_inventory self))
    as [Hall|(pre & key & item & post & Hinv & Hpre & Hex)].
  - left. split; [done|]. by apply evict_all_kept.
  - right.
    destruct (evict_first_expired getrefcount now self pre key item post
                Hwf Hinv Hpre Hex) as (d' & Hpop & _ & Hev).
    by exists pre, key, item, post, d'.
Qed.

End SweepMore.

Section CacheMore.
Context {Key Obj : Type} `{EqDecision Key}.
Implicit Types (self : Cache Key Obj) (item : Item Obj) (key : Key).
Implicit Types (getrefcount : Obj → Z) (now : datetime).

Lemma get_state getrefcount (t_touch t_evict : datetime) key item self :
  dict_get key (_inventory self) = Some item →
  (get getrefcount t_touch t_evict key self).2
  = (evict getrefcount t_evict
       (with_inventory self
          (dict_set key (Item_touch t_touch item) (_inventory self)))).2.
Proof.
  intros Hget. unfold get. rewrite Hget.
  by destruct (evict _ _ _) as [[l|e] self2].
Qed.

Lemma evict_wf getrefcount now self :
  dict_wf (_inventory self) → dict_wf (_inventory (evict getrefcount now self).2).
Proof.
  intros Hwf.
  destruct (evict_outcome_wf getrefcount now self Hwf)
    as [[_ ->]|(pre & key & item & post & d' & _ & _ & _ & Hpop & ->)]; [done|].
  simpl. by eapply dict_pop_wf.
Qed.

Lemma evict_threshold getrefcount now self :
  eviction_threshold (evict getrefcount now self).2 = eviction_threshold self.
Proof.
  destruct (evict_outcome getrefcount now self)
    as [[_ ->]|(pre & key & item & post & _ & _ & _ & Hend)]; [done|].
  destruct Hend as [(item0 & d' & _ & ->)|[_ ->]]; done.
Qed.

Lemma after_call_invariant self (c : cache_call Key Obj) :
  dict_wf (_inventory self) →
  dict_wf (_inventory (after_call self c)) ∧
  eviction_threshold (after_call self c) = eviction_threshold self.
Proof.
  intros Hwf. destruct c as [now key o|key|rc now|rc t1 t2 key]; simpl.
  - split; [by apply put_wf|done].
  - unfold purge. destruct (dict_pop key (_inventory self)) as [[it d]|] eqn:Hpop; simpl.
    + split; [by eapply dict_pop_wf|done].
    + done.
  - split; [by apply evict_wf|apply evict_threshold].
  - destruct (dict_get key (_inventory self)) as [item|] eqn:Hget.
    + rewrite (get_state rc t1 t2 key item self Hget). split.
      * apply evict_wf. simpl. by apply dict_set_wf.
      * by rewrite evict_threshold.
    + unfold get. by rewrite Hget.
Qed.

(** X1. [put] stores the payload under the key with the clock reading as
    its timestamp, leaves every other key as it was, and adds an entry
    only when the key was not in the cache. *)
Theorem put_stores now key (o : Obj) self :
  dict_get key (_inventory (put now key o self)) = Some (mkItem now o) ∧
  (∀ key', key' ≠ key →
     dict_get key' (_inventory (put now key o self)) = dict_get key' (_inventory self)) ∧
  length (_inventory (put now key o self))
  = if contains key self then length (_inventory self) else S (length (_inventory self)).
Proof.
  split; [apply put_get|]. split.
  - intros key' Hne. unfold put. simpl. by apply dict_get_set_other.
  - unfold put, contains. simpl. apply dict_set_length.
Qed.

(** X2. A second [put] under the same key drops the first entry
    altogether: the cache is as if only the second had been made. *)
Theorem put_overwrites (t1 t2 : datetime) key (o1 o2 : Obj) self :
  put t2 key o2 (put t1 key o1 self) = put t2 key o2 self.
Proof. unfold put, with_inventory. simpl. by rewrite dict_set_set. Qed.

(** X3. [purge] undoes a [put] of a new key: it hands back the item just
    stored and the cache is what it was before the [put]. *)
Theorem purge_undoes_put now key (o : Obj) self :
  contains key self = false →
  purge key (put now key o self) = (Return (VItem (mkItem now o)), self).
Proof.
  intros Habs. apply contains_false in Habs.
  unfold purge, put. simpl.
  rewrite (dict_pop_set_absent _ _ _ Habs). simpl.
  by destruct self.
Qed.

(** X4. Whatever a first [purge] of a key did, a second one raises
    [KeyError] and changes nothing. *)
Theorem purge_twice key self :
  dict_wf (_inventory self) →
  purge key (purge key self).2 = (Raise KeyError, (purge key self).2).
Proof.
  intros Hwf. unfold purge at 2 3.
  destruct (dict_pop key (_inventory self)) as [[it d]|] eqn:Hpop; simpl.
  - unfold purge. simpl. by rewrite (dict_pop_None _ _ (dict_pop_gone _ _ _ _ Hwf Hpop)).
  - unfold purge. by rewrite Hpop.
Qed.

(** X5. When [evict] returns, the list it returns is empty, the cache is
    unchanged and no entry was expired: a sweep that evicts anything does
    not return. *)
Theorem evict_returns_only_empty getrefcount now self (evicted : list Obj) self' :
  evict getrefcount now self = (Return evicted, self') →
  evicted = [] ∧ self' = self ∧
  Forall (λ kv, kept getrefcount now (eviction_threshold self) kv.2) (_inventory self).
Proof.
  intros Hev.
  destruct (evict_outcome getrefcount now self)
    as [[Hall Heq]|(pre & key & item & post & _ & _ & _ & Hend)].
  - rewrite Heq in Hev. by injection Hev as <- <-.
  - destruct Hend as [(item0 & d' & _ & Heq)|[_ Heq]]; rewrite Heq in Hev; done.
Qed.

(** X6. On a cache with one entry per key, [evict] raises [RuntimeError]
    exactly when some entry is expired (not busy and idle for the threshold
    or longer), and it raises nothing else. *)
Theorem evict_raises_iff_expired getrefcount now self :
  dict_wf (_inventory self) →
  ((evict getrefcount now self).1 = Raise RuntimeError ↔
   Exists (λ kv, examine getrefcount now (eviction_threshold self) kv.2 = IsExpired)
     (_inventory self)) ∧
  ∀ e, (evict getrefcount now self).1 = Raise e → e = RuntimeError.
Proof.
  intros Hwf.
  destruct (evict_outcome_wf getrefcount now self Hwf)
    as [[Hall ->]|(pre & key & item & post & d' & Hinv & _ & Hex & _ & ->)]; simpl.
  - split; [|done]. split; [done|]. intros Hsome. exfalso.
    apply Exists_exists in Hsome as (kv & Hin & Hkv).
    rewrite Forall_forall in Hall. by apply (Hall kv Hin).
  - split; [|by intros e [= <-]]. split; [|done]. intros _. rewrite Hinv.
    apply Exists_app. right. by apply Exists_cons_hd.
Qed.

(** X7. One call of [evict] removes at most one entry, removes only an
    expired one, alters no entry and adds none; when it raises
    [RuntimeError] it has removed exactly one. *)
Theorem evict_removes_at_most_one getrefcount now self :
  dict_wf (_inventory self) →
  (length (_inventory self) ≤ S (length (_inventory (evict getrefcount now self).2)))%nat ∧
  (∀ key item,
     dict_get key (_inventory self) = Some item →
     dict_get key (_inventory (evict getrefcount now self).2) = Some item ∨
     (dict_get key (_inventory (evict getrefcount now self).2) = None ∧
      examine getrefcount now (eviction_threshold self) item = IsExpired)) ∧
  (∀ key item,
     dict_get key (_inventory (evict getrefcount now self).2) = Some item →
     dict_get key (_inventory self) = Some item) ∧
  ((evict getrefcount now self).1 = Raise RuntimeError →
   length (_inventory self) = S (length (_inventory (evict getrefcount now self).2))).
Proof.
  intros Hwf.
  destruct (evict_outcome_wf getrefcount now self Hwf)
    as [[Hall ->]|(pre & key0 & item0 & post & d' & Hinv & _ & Hex & Hpop & ->)]; simpl.
  - split; [lia|]. split; [by left|]. split; [done|done].
  - split; [rewrite (dict_pop_length _ _ _ _ Hpop); lia|].
    split; [|split; [|intros _; by apply (dict_pop_length _ _ _ _ Hpop)]].
    + intros key item Hget. destruct (decide (key = key0)) as [->|Hne].
      * right. split; [by eapply dict_pop_gone|].
        rewrite (dict_pop_get _ _ _ _ Hpop) in Hget. by injection Hget as <-.
      * left. by rewrite (dict_pop_other _ _ _ _ _ Hpop Hne).
    + intros key item Hget. destruct (decide (key = key0)) as [->|Hne].
      * by rewrite (dict_pop_gone _ _ _ _ Hwf Hpop) in Hget.
      * by rewrite <- (dict_pop_other _ _ _ _ _ Hpop Hne).
Qed.

(** X8. When [get] returns, what it returns is the payload stored under
    the key, and the only change to the cache is that item's timestamp. *)
Theorem get_returns_payload getrefcount (t_touch t_evict : datetime) key self
    (v : PyVal Key Obj) self' :
  get getrefcount t_touch t_evict key self = (Return v, self') →
  ∃ item,
    dict_get key (_inventory self) = Some item ∧
    v = VObject (object item) ∧
    self' = with_inventory self
              (dict_set key (Item_touch t_touch item) (_inventory self)).
Proof.
  unfold get. destruct (dict_get key (_inventory self)) as [item|]; [|done].
  set (self1 := with_inventory self _).
  destruct (evict_outcome getrefcount t_evict self1)
    as [[_ ->]|(pre & k & it & post & _ & _ & _ & Hend)].
  - intros [= <- <-]. by exists item.
  - destruct Hend as [(item0 & d' & _ & ->)|[_ ->]]; done.
Qed.

(** X9. On a key of the cache, [get] returns the payload or raises the
    sweep's [RuntimeError]; it raises [LookupError] for no present key. *)
Theorem get_present_outcome getrefcount (t_touch t_evict : datetime) key item self :
  dict_wf (_inventory self) →
  dict_get key (_inventory self) = Some item →
  (get getrefcount t_touch t_evict key self).1 = Return (VObject (object item)) ∨
  (get getrefcount t_touch t_evict key self).1 = Raise RuntimeError.
Proof.
  intros Hwf Hget. unfold get. rewrite Hget.
  set (self1 := with_inventory self _).
  assert (Hwf1 : dict_wf (_inventory self1)) by (simpl; by apply dict_set_wf).
  destruct (evict_outcome_wf getrefcount t_evict self1 Hwf1)
    as [[_ ->]|(pre & k & it & post & d' & _ & _ & _ & _ & ->)]; [by left|by right].
Qed.

(** X10. The entry [get] asks for carries the new timestamp afterwards,
    whether [get] returned or raised, if its object is busy or the sweep
    reads the clock less than the threshold after the touch. *)
Theorem get_keeps_requested getrefcount (t_touch t_evict : datetime) key item self :
  dict_wf (_inventory self) →
  dict_get key (_inventory self) = Some item →
  busy getrefcount item = true ∨ t_evict - t_touch < eviction_threshold self →
  dict_get key (_inventory (get getrefcount t_touch t_evict key self).2)
  = Some (Item_touch t_touch item).
Proof.
  intros Hwf Hget Hsafe. rewrite (get_state _ _ _ _ _ _ Hget).
  apply evict_keeps.
  - simpl. by apply dict_set_wf.
  - simpl. apply dict_get_set.
  - simpl. destruct Hsafe as [Hbusy|Hlt].
    + unfold kept. by rewrite examine_busy.
    + by apply examine_fresh.
Qed.

(** X11. An entry stored less than the threshold ago is still there, with
    its payload, after a sweep, however the sweep ends. *)
Theorem put_survives_evict getrefcount (t_put now : datetime) key (o : Obj) self :
  dict_wf (_inventory self) →
  now - t_put < eviction_threshold self →
  dict_get key (_inventory (evict getrefcount now (put t_put key o self)).2)
  = Some (mkItem t_put o).
Proof.
  intros Hwf Hlt. apply evict_keeps.
  - by apply put_wf.
  - apply put_get.
  - by apply examine_fresh.
Qed.

(** X12. Whatever sequence of [put], [purge], [evict] and [get] calls a
    cache goes through after construction, and however those calls end,
    its inventory has one entry per key and its threshold is the one the
    constructor chose, which is never zero. *)
Theorem cache_invariant (threshold : option timedelta) (cs : list (cache_call Key Obj)) :
  dict_wf (_inventory (after_calls (Cache_init threshold) cs)) ∧
  eviction_threshold (after_calls (Cache_init threshold) cs)
  = eviction_threshold (Cache_init (Key:=Key) (Obj:=Obj) threshold) ∧
  eviction_threshold (after_calls (Cache_init threshold) cs) ≠ 0.
Proof.
  assert (Hgen : ∀ self, dict_wf (_inventory self) →
            dict_wf (_inventory (after_calls self cs)) ∧
            eviction_threshold (after_calls self cs) = eviction_threshold self).
  { unfold after_calls. induction cs as [|c cs IH]; intros self Hwf; simpl; [done|].
    destruct (after_call_invariant self c Hwf) as [Hwf' Hthr].
    destruct (IH _ Hwf') as [? ?]. split; [done|congruence]. }
  destruct (Hgen (Cache_init (Key:=Key) (Obj:=Obj) threshold)) as [Hwf Hthr]; [apply NoDup_nil_2|].
  split; [done|]. split; [done|]. rewrite Hthr. simpl.
  destruct threshold as [t|]; [|done].
  destruct (t =? 0) eqn:Ht; [done|]. by apply Z.eqb_neq.
Qed.

End CacheMore.

(** * Further properties of the context *)

Section ContextMore.
Context {Key Obj : Type} `{EqDecision Key}.
Variable base : string → option (base_member Key Obj).
Implicit Types (self : Context Key Obj) (op : operation Key Obj).
Implicit Types (name key : string) (value : PyVal Key Obj).

Lemma with_level_same self : with_level self (mutex_level self) = self.
Proof. by destruct self. Qed.

Lemma dict_update_frame name (properties : list (string * PyVal Key Obj)) :
  ∀ d : gmap string (PyVal Key Obj),
    name ∉ properties.*1 → dict_update d properties !! name = d !! name.
Proof.
  unfold dict_update.
  induction properties as [|[k v] properties IH]; intros d Hnot; simpl; [done|].
  simpl in Hnot. apply not_elem_of_cons in Hnot as [Hne Hnot].
  rewrite IH by done. by rewrite lookup_insert_ne.
Qed.

Lemma dict_update_lookup name value (properties : list (string * PyVal Key Obj)) :
  ∀ d : gmap string (PyVal Key Obj),
    NoDup properties.*1 → (name, value) ∈ properties →
    dict_update d properties !! name = Some value.
Proof.
  induction properties as [|[k v] properties IH]; intros d Hnd Hin.
  - by apply elem_of_nil in Hin.
  - simpl in Hnd. apply NoDup_cons in Hnd as [Hk Hnd].
    apply elem_of_cons in Hin as [Heq|Hin].
    + injection Heq as -> ->. unfold dict_update. simpl.
      fold (dict_update (<[k:=v]> d) properties).
      rewrite dict_update_frame by done. apply lookup_insert_eq.
    + unfold dict_update. simpl. fold (dict_update (<[k:=v]> d) properties).
      by apply IH.
Qed.

(** Reading a name from the instance dictionary, when no data descriptor
    stands in front of it. *)
Lemma getattr_stored self name value :
  name ≠ "_mutex" → no_data_descriptor base name →
  __dict__ self !! name = Some value →
  getattr base self name = Return value.
Proof.
  intros Hname Hbase Hd. unfold getattr, Context_class.
  rewrite decide_False by done.
  destruct (decide (name ∈ _)); [by rewrite Hd|].
  rewrite Hd. destruct (base name) as [[v [e|]]|] eqn:Hb; [|done..].
  by specialize (Hbase _ Hb).
Qed.



Lemma object_setattr_level self self' key value :
  object_setattr base self key value = Return self' →
  mutex_level self' = mutex_level self.
Proof.
  unfold object_setattr. intros Hset.
  destruct (Context_class key) as [[]|]; try done.
  - by injection Hset as <-.
  - destruct (base key) as [[v [x|]]|]; try done; by injection Hset as <-.
Qed.


Lemma perform_all_enters (n : nat) : ∀ self (ops : list (operation Key Obj)),
  _mutex self = Return VRLock →
  perform_all base self (replicate n OpEnter ++ ops)
  = ((perform_all base (with_level self (n + mutex_level self)) ops).1,
     replicate n Acquire ++
       (perform_all base (with_level self (n + mutex_level self)) ops).2).
Proof.
  induction n as [|n IH]; intros self ops Hm; simpl.
  - rewrite with_level_same. by destruct (perform_all base self ops).
  - unfold enter. rewrite Hm.
    rewrite (IH (with_level self (S (mutex_level self))) ops Hm). simpl.
    unfold with_level. simpl. by rewrite Nat.add_succ_r.
Qed.

Lemma perform_all_exits (n : nat) : ∀ self,
  _mutex self = Return VRLock → (n ≤ mutex_level self)%nat →
  perform_all base self (replicate n OpExit)
  = (with_level self (mutex_level self - n), replicate n Release).
Proof.
  induction n as [|n IH]; intros self Hm Hle; simpl.
  - by rewrite Nat.sub_0_r, with_level_same.
  - unfold exit. rewrite Hm.
    destruct (mutex_level self) as [|l] eqn:Hl; [lia|].
    rewrite (IH (with_level self l) Hm) by (simpl; lia). simpl.
    unfold with_level. simpl. done.
Qed.

(** X13. Construction always ends with the context's own lock under
    [MUTEX], not held, and a new empty cache with the default threshold
    under [cache]: initial properties of those names are overwritten. *)
Theorem Context_init_reserved (properties : list (string * PyVal Key Obj)) :
  _mutex (Context_init properties).1 = Return VRLock ∧
  __dict__ (Context_init properties).1 !! "cache"
  = Some (VCache (Cache_init None)) ∧
  mutex_level (Context_init properties).1 = 0%nat.
Proof.
  unfold _mutex. simpl. split; [|split; [|done]].
  - rewrite lookup_insert_ne by done. by rewrite lookup_insert_eq.
  - by rewrite lookup_insert_eq.
Qed.

(** X14. An initial property whose name is not one of the two reserved
    entries reads back with the value given at construction. *)
Theorem Context_init_property (properties : list (string * PyVal Key Obj)) name value :
  NoDup properties.*1 →
  (name, value) ∈ properties →
  name ≠ "MUTEX" → name ≠ "cache" → name ≠ "_mutex" →
  no_data_descriptor base name →
  getattr base (Context_init properties).1 name = Return value.
Proof.
  intros Hnd Hin Hm Hc Hp Hbase. apply getattr_stored; [done..|]. simpl.
  rewrite !lookup_insert_ne by done. by apply dict_update_lookup.
Qed.



(** X17. [__setattr__] leaves the mutex held as many times as it found
    it, on every path: when the store is made, when the store raises and
    when the lock cannot be taken. *)
Theorem setattr_releases self key value :
  mutex_level (setattr base self key value).1.2 = mutex_level self ∧
  ∀ level, level_after level (setattr base self key value).2 = level.
Proof.
  unfold setattr. destruct (_mutex self) as [[]|]; try done.
  destruct (object_setattr _ _ _ _) as [self2|e] eqn:Hset; simpl; [|done].
  by rewrite (object_setattr_level _ _ _ _ Hset).
Qed.

(** X18. [_mutex] cannot be assigned: the attempt raises
    [AttributeError] inside the [with] block, stores nothing and leaves
    the context as it was. *)
Theorem setattr_mutex_property self value :
  _mutex self = Return VRLock →
  setattr base self "_mutex" value = (Raise AttributeError, self, [Acquire; Release]).
Proof.
  intros Hm. unfold setattr. rewrite Hm. simpl.
  by destruct self.
Qed.

(** X19. The lock is reentrant: entering a context [n] times and leaving
    it [n] times brings it back to where it was; on a context that is not
    held, one more exit raises [RuntimeError] and changes nothing. *)
Theorem enter_exit_nested (n : nat) self :
  _mutex self = Return VRLock →
  mutex_level self = 0%nat →
  perform_all base self (replicate n OpEnter ++ replicate n OpExit)
  = (self, replicate n Acquire ++ replicate n Release) ∧
  exit self = (Raise RuntimeError, self, []).
Proof.
  intros Hm Hl. split.
  - rewrite perform_all_enters by done.
    rewrite perform_all_exits; [|done|simpl; lia]. simpl.
    rewrite Hl, Nat.add_0_r, Nat.sub_diag. unfold with_level. simpl.
    rewrite <- Hl. by destruct self.
  - unfold exit. by rewrite Hm, Hl.
Qed.

End ContextMore.

(** ** Instances of the further properties *)

Lemma purge_undoes_put_witness :
  purge 2 (put 7 2 20 one_entry) = (Return (VItem (mkItem 7 20)), one_entry).
Proof. apply (purge_undoes_put 7 2 20 one_entry). reflexivity. Defined.

Lemma purge_twice_witness :
  purge 1 (purge 1 two_entries).2 = (Raise KeyError, (purge 1 two_entries).2).
Proof. apply (purge_twice 1 two_entries). unfold dict_wf. compute_done. Defined.

Lemma evict_returns_only_empty_witness :
  ([] : list Z) = [] ∧ one_entry = one_entry ∧
  Forall (λ kv, kept unreferenced 50 (eviction_threshold one_entry) kv.2)
    (_inventory one_entry).
Proof.
  apply (evict_returns_only_empty unreferenced 50 one_entry [] one_entry).
  reflexivity.
Defined.

Lemma evict_raises_iff_expired_witness :
  ((evict unreferenced 150 two_entries).1 = Raise RuntimeError ↔
   Exists (λ kv, examine unreferenced 150 (eviction_threshold two_entries) kv.2
                 = IsExpired)
     (_inventory two_entries)) ∧
  ∀ e, (evict unreferenced 150 two_entries).1 = Raise e → e = RuntimeError.
Proof.
  apply (evict_raises_iff_expired unreferenced 150 two_entries).
  unfold dict_wf. compute_done.
Defined.

Lemma evict_removes_at_most_one_witness :
  (length (_inventory two_entries)
   ≤ S (length (_inventory (evict unreferenced 1000%Z two_entries).2)))%nat ∧
  (∀ key item,
     dict_get key (_inventory two_entries) = Some item →
     dict_get key (_inventory (evict unreferenced 1000 two_entries).2) = Some item ∨
     (dict_get key (_inventory (evict unreferenced 1000 two_entries).2) = None ∧
      examine unreferenced 1000 (eviction_threshold two_entries) item = IsExpired)) ∧
  (∀ key item,
     dict_get key (_inventory (evict unreferenced 1000 two_entries).2) = Some item →
     dict_get key (_inventory two_entries) = Some item) ∧
  ((evict unreferenced 1000 two_entries).1 = Raise RuntimeError →
   length (_inventory two_entries)
   = S (length (_inventory (evict unreferenced 1000 two_entries).2))).
Proof.
  apply (evict_removes_at_most_one unreferenced 1000 two_entries).
  unfold dict_wf. compute_done.
Defined.

Lemma get_returns_payload_witness :
  ∃ item,
    dict_get 1 (_inventory one_entry) = Some item ∧
    VObject (Key:=Z) 10 = VObject (object item) ∧
    sample_cache 100 [(1, mkItem 5 10)]
    = with_inventory one_entry (dict_set 1 (Item_touch 5 item) (_inventory one_entry)).
Proof.
  apply (get_returns_payload unreferenced 5 5 1 one_entry (VObject 10)
           (sample_cache 100 [(1, mkItem 5 10)])).
  reflexivity.
Defined.

Lemma get_present_outcome_witness :
  (get unreferenced 150 150 2 two_entries).1 = Return (VObject 20) ∨
  (get unreferenced 150 150 2 two_entries).1 = Raise RuntimeError.
Proof.
  apply (get_present_outcome unreferenced 150 150 2 (mkItem 90 20) two_entries).
  - unfold dict_wf. compute_done.
  - reflexivity.
Defined.

Lemma get_keeps_requested_witness :
  dict_get 2 (_inventory (get unreferenced 150 160 2 two_entries).2)
  = Some (mkItem 150 20).
Proof.
  apply (get_keeps_requested unreferenced 150 160 2 (mkItem 90 20) two_entries).
  - unfold dict_wf. compute_done.
  - reflexivity.
  - right. reflexivity.
Defined.

Lemma put_survives_evict_witness :
  dict_get 3 (_inventory (evict unreferenced 150 (put 100 3 30 two_entries)).2)
  = Some (mkItem 100 30).
Proof.
  apply (put_survives_evict unreferenced 100 150 3 30 two_entries).
  - unfold dict_wf. compute_done.
  - reflexivity.
Defined.

Lemma Context_init_property_witness :
  getattr no_base (Context_init [("url", VObject 1); ("cache", VObject 2)]).1 "url"
  = Return (VObject 1).
Proof.
  apply (Context_init_property no_base [("url", VObject 1); ("cache", VObject 2)]
           "url" (VObject 1)).
  - compute_done.
  - apply list_elem_of_here.
  - discriminate.
  - discriminate.
  - discriminate.
  - intros m Hm. discriminate Hm.
Defined.



Lemma setattr_mutex_property_witness :
  setattr no_base fresh_context "_mutex" (VObject 5)
  = (Raise AttributeError, fresh_context, [Acquire; Release]).
Proof.
  apply (setattr_mutex_property no_base fresh_context (VObject 5)). reflexivity.
Defined.

Lemma enter_exit_nested_witness :
  perform_all no_base fresh_context (replicate 2 OpEnter ++ replicate 2 OpExit)
  = (fresh_context, replicate 2 Acquire ++ replicate 2 Release) ∧
  exit fresh_context = (Raise RuntimeError, fresh_context, []).
Proof.
  apply (enter_exit_nested no_base 2 fresh_context); reflexivity.
Defined.
